(** * nerfstudio/process_data/opf_utils.py

    A shallow embedding of the OPF helper functions ([filter_cameras],
    [extract_intrinsics], [extract_common_intrinsics], [make_transforms])
    and the properties of the scene document they assemble.

    Modelling conventions.
    - Python numbers are [pynum]: an [int] is [PyInt], a [float] (also a
      numpy [float64]) is [PyFloat] carrying an exact rational.  Not-a-number,
      infinities and rounding error are outside the model.
    - A Python [dict] with string keys is a [gmap string _]; two such maps are
      equal exactly when Python's [==] on the dicts holds.
    - Dicts are mutable objects: the intrinsics records live in a [heap]
      addressed by locations, and a Python list of dicts is a list of
      locations, so that aliasing is visible.
    - Exceptions are values of [exn]; fallible code returns a [result]. *)

From Stdlib Require Import ZArith QArith Qcanon Qround.
From stdpp Require Import gmap strings list fin_maps pretty.

Local Open Scope Z_scope.

(** ** Python values and exceptions *)

Inductive pynum :=
  | PyInt (n : Z)
  | PyFloat (x : Qc).

Definition Z2Qc (n : Z) : Qc := Q2Qc (inject_Z n).

Definition to_Qc (v : pynum) : Qc :=
  match v with
  | PyInt n => Z2Qc n
  | PyFloat x => x
  end.

(** [a != b] on numbers: numeric comparison, so that [1 != 1.0] is false. *)
Definition py_ne (a b : pynum) : bool := negb (Qc_eq_bool (to_Qc a) (to_Qc b)).

(** Truncation toward zero, as done by [int(x)] and [ndarray.astype(int)]. *)
Definition trunc (x : Qc) : Z := Z.quot (Qnum x) (Zpos (Qden x)).

Definition py_int (v : pynum) : Z :=
  match v with
  | PyInt n => n
  | PyFloat x => trunc x
  end.

Inductive exn :=
  | TypeError
  | ValueError
  | IndexError
  | KeyError (key : string)
  | RuntimeError (msg : string)
  | UnboundLocalError (name : string).

Inductive result (A : Type) :=
  | Ok (a : A)
  | Raise (e : exn).
Arguments Ok {A} a.
Arguments Raise {A} e.

Global Instance result_ret : MRet result := λ A a, Ok a.
Global Instance result_bind : MBind result := λ A B k r,
  match r with
  | Ok a => k a
  | Raise e => Raise e
  end.

(** A list comprehension whose element expression may raise: elements are
    evaluated left to right and the first exception aborts it. *)
Fixpoint comprehension {A B} (f : A → result B) (l : list A) : result (list B) :=
  match l with
  | [] => Ok []
  | a :: l' => b ← f a; bs ← comprehension f l'; Ok (b :: bs)
  end.

(** [l[i]] on a Python list: the index must be an [int]; a [float] index
    raises [TypeError]; negative indices count from the end. *)
Definition list_getitem {A} (l : list A) (i : pynum) : result A :=
  match i with
  | PyFloat _ => Raise TypeError
  | PyInt n =>
      let n' := if n <? 0 then n + Z.of_nat (length l) else n in
      if n' <? 0 then Raise IndexError
      else match l !! Z.to_nat n' with
           | Some a => Ok a
           | None => Raise IndexError
           end
  end.

(** [a[i]] on a one-dimensional numpy array with a literal index [i >= 0]. *)
Definition nd_getitem (a : list pynum) (i : nat) : result pynum :=
  match a !! i with
  | Some v => Ok v
  | None => Raise IndexError
  end.

(** ** The numpy functions used by the camera selector *)

(** [np.linspace(start, stop, num)] with the default [endpoint=True]:
    a float array; a negative [num] raises [ValueError]. *)
Definition np_linspace (start stop : Qc) (num : Z) : result (list pynum) :=
  if num <? 0 then Raise ValueError
  else
    let div := num - 1 in
    let delta := (stop - start)%Qc in
    let y := Z2Qc <$> seqZ 0 num in
    let y := if 0 <? div
             then (λ i, i * (delta / Z2Qc div))%Qc <$> y
             else (λ i, i * delta)%Qc <$> y in
    let y := (λ v, v + start)%Qc <$> y in
    let y := if 1 <? num then <[pred (length y) := stop]> y else y in
    Ok (PyFloat <$> y).

(** Round half to even. *)
Definition rint (x : Qc) : Z :=
  let f := Qfloor x in
  let r := (x - Z2Qc f)%Qc in
  match (r ?= Q2Qc (1 # 2))%Qc with
  | Lt => f
  | Gt => f + 1
  | Eq => if Z.even f then f else f + 1
  end.

(** [np.round] keeps the dtype: a float array stays a float array. *)
Definition np_round (a : list pynum) : list pynum :=
  (λ v, match v with
        | PyInt n => PyInt n
        | PyFloat x => PyFloat (Z2Qc (rint x))
        end) <$> a.

(** ** Camera records *)

Module CameraData.
Record t := mk { id : Z; uri : string }.
End CameraData.

Module CameraList.
Record t := mk { cameras : list CameraData.t }.
End CameraList.

Module CalibratedCamera.
Record t := mk {
  id : Z;
  sensor_id : string;
  position : list Qc;
  orientation_deg : list Qc
}.
End CalibratedCamera.

Module CalibratedCameras.
Record t := mk { cameras : list CalibratedCamera.t }.
End CalibratedCameras.

Module Internals.
Record t := mk {
  focal_length_px : pynum;
  principal_point_px : list pynum;
  radial_distortion : list pynum;
  tangential_distortion : list pynum
}.
End Internals.

Module Sensor.
Record t := mk { id : string; internals : Internals.t }.
End Sensor.

(** ** filter_cameras *)

(** The positions at which cameras are sampled:
    [idx = np.round(np.linspace(0, num_orig_images - 1, max_num_images))]. *)
Definition idx (num_orig_images max_num_images : Z) : result (list pynum) :=
  lin ← np_linspace (Z2Qc 0) (Z2Qc (num_orig_images - 1)) max_num_images;
  Ok (np_round lin).

Definition filter_cameras (camera_list : CameraList.t) (max_num_images : Z)
  : result (list CameraData.t) :=
  let num_orig_images := Z.of_nat (length (CameraList.cameras camera_list)) in
  if negb (max_num_images =? -1) && (num_orig_images >? max_num_images) then
    idx ← idx num_orig_images max_num_images;
    comprehension (list_getitem (CameraList.cameras camera_list)) idx
  else
    Ok (CameraList.cameras camera_list).

(** ** extract_intrinsics *)

Definition intrinsics_keys : list string :=
  ["fl_x"; "fl_y"; "cx"; "cy"; "w"; "h"; "k1"; "k2"; "k3"; "p1"; "p2"].

(** The entries of the dict display are evaluated top to bottom. *)
Definition extract_intrinsics (sensor : Sensor.t) (image_size_px : list pynum)
  : result (gmap string pynum) :=
  let i := Sensor.internals sensor in
  let fl_x := Internals.focal_length_px i in
  let fl_y := Internals.focal_length_px i in
  cx ← nd_getitem (Internals.principal_point_px i) 0;
  cy ← nd_getitem (Internals.principal_point_px i) 1;
  w ← nd_getitem image_size_px 0;
  h ← nd_getitem image_size_px 1;
  k1 ← nd_getitem (Internals.radial_distortion i) 0;
  k2 ← nd_getitem (Internals.radial_distortion i) 1;
  k3 ← nd_getitem (Internals.radial_distortion i) 2;
  p1 ← nd_getitem (Internals.tangential_distortion i) 0;
  p2 ← nd_getitem (Internals.tangential_distortion i) 1;
  Ok (<["p2" := p2]> (<["p1" := p1]> (<["k3" := k3]> (<["k2" := k2]>
     (<["k1" := k1]> (<["h" := PyInt (py_int h)]> (<["w" := PyInt (py_int w)]>
     (<["cy" := cy]> (<["cx" := cx]> (<["fl_y" := fl_y]>
     (<["fl_x" := fl_x]> ∅))))))))))).

(** ** The heap of intrinsics dicts *)

Abbreviation dict := (gmap string pynum).
Abbreviation loc := nat.
Abbreviation heap := (gmap nat (gmap string pynum)).

(** ** extract_common_intrinsics *)

(** The body of the inner loop, for one [(key, value)] item.
    [common_intrinsics.get(key)] is [None] for a missing key, which differs
    from every number; the [del] then raises [KeyError], which is swallowed. *)
Definition drop_if_differs (common : loc) (h : heap) (item : string * pynum) : heap :=
  let differs := match (h !!! common) !! item.1 with
                 | Some v => py_ne v item.2
                 | None => true
                 end in
  if differs then alter (delete item.1) common h else h.

(** The inner loop over [intrinsics.items()].  The items are read when the
    loop starts; see [scan_self] for the case where [intrinsics] is the
    accumulator itself. *)
Definition scan_record (common : loc) (h : heap) (intrinsics : loc) : heap :=
  foldl (drop_if_differs common) h (map_to_list (h !!! intrinsics)).

(** [common_intrinsics = intrinsics_list[0]] binds the name to the first
    dict itself: the result is that location, and the deletions go to it.
    The empty list returns a new empty dict. *)
Definition extract_common_intrinsics (intrinsics_list : list loc) (h : heap)
  : loc * heap :=
  match intrinsics_list with
  | [] => let l := fresh (dom h) in (l, <[l := ∅]> h)
  | common_intrinsics :: _ =>
      (common_intrinsics, foldl (scan_record common_intrinsics) h intrinsics_list)
  end.

(** The returned dict, read as a value. *)
Definition common_value (intrinsics_list : list loc) (h : heap) : dict :=
  let '(l, h') := extract_common_intrinsics intrinsics_list h in h' !!! l.

(** ** make_transforms *)

(** What this module takes from outside: the pose collaborator
    [opf_tools.opf2nerf.converter.get_transform_matrix] (a 4x4 float array),
    [urllib.parse.urlparse(uri).path], and [pathlib]'s [is_absolute],
    [absolute] and [/], with paths written as strings. *)
Class External := {
  get_transform_matrix : CalibratedCamera.t → bool → list (list Qc);
  urlparse_path : string → string;
  is_absolute : string → bool;
  absolute : string → string;
  joinpath : string → string → string
}.

Inductive frame_value :=
  | FMatrix (m : list (list Z))
  | FStr (s : string)
  | FNum (v : pynum).

Abbreviation frame := (gmap string frame_value).

Inductive doc_value :=
  | DStr (s : string)
  | DFrames (frames : list (gmap string frame_value))
  | DNum (v : pynum).

Abbreviation SceneDocument := (gmap string doc_value).

(** [ndarray.astype(int).tolist()] *)
Definition astype_int (m : list (list Qc)) : list (list Z) := map (map trunc) m.

(** [sensor_id_to_intrinsics]: a dict from sensor id to intrinsics dict, in
    insertion order; its values are references into the heap. *)
Abbreviation sensor_table := (list (string * nat)).

Definition dict_values (d : sensor_table) : list loc := snd <$> d.

Definition dict_getitem (d : sensor_table) (key : string) : result loc :=
  match find (λ kv, String.eqb kv.1 key) d with
  | Some kv => Ok kv.2
  | None => Raise (KeyError key)
  end.

(** [next((camera for camera in cameras if camera.id == id), None)] *)
Definition next_calibrated (cameras : list CalibratedCamera.t) (id : Z)
  : option CalibratedCamera.t :=
  find (λ camera, CalibratedCamera.id camera =? id) cameras.

Definition not_found_message (id : Z) : string :=
  "Could not find calibrated camera with id " +:+ pretty id.

(** The frame dict display: the two fixed entries, then the unpacked
    comprehension over the sensor's items whose key is not in
    [common_intrinsics]; a later entry replaces an earlier one. *)
Definition make_frame (transform_matrix : list (list Z)) (path : string)
    (sensor_intrinsics common_intrinsics : dict) : frame :=
  (FNum <$> filter (λ kv, common_intrinsics !! kv.1 = None) sensor_intrinsics)
  ∪ <["file_path" := FStr path]> (<["transform_matrix" := FMatrix transform_matrix]> ∅).

(** The document display: the later, unpacked [common_intrinsics] entries
    replace the fixed ones on a key clash. *)
Definition make_document (frames : list frame) (common_intrinsics : dict)
  : SceneDocument :=
  (DNum <$> common_intrinsics)
  ∪ <["frames" := DFrames frames]> (<["camera_model" := DStr "OPENCV"]> ∅).

Section Assembler.
Context `{External}.

Definition get_camera_absolute_path (camera : CameraData.t)
    (project_directory : string) : string :=
  let path := urlparse_path (CameraData.uri camera) in
  if negb (is_absolute path) then joinpath (absolute project_directory) path
  else path.

(** The [for camera_data in camera_datas] loop.  [common_intrinsics] is a
    local name that is unbound ([None]) until the body has run once. *)
Fixpoint frames_loop (calibrated_cameras : CalibratedCameras.t)
    (sensor_id_to_intrinsics : sensor_table) (project_dir : string)
    (camera_datas : list CameraData.t)
    (frames : list frame) (common_intrinsics : option loc) (h : heap)
  : result (list frame * option loc) * heap :=
  match camera_datas with
  | [] => (Ok (frames, common_intrinsics), h)
  | camera_data :: rest =>
      let path := get_camera_absolute_path camera_data project_dir in
      match next_calibrated (CalibratedCameras.cameras calibrated_cameras)
              (CameraData.id camera_data) with
      | None =>
          (Raise (RuntimeError (not_found_message (CameraData.id camera_data))), h)
      | Some calibrated_camera =>
          let transform_matrix :=
            astype_int (get_transform_matrix calibrated_camera false) in
          let '(common, h) :=
            extract_common_intrinsics (dict_values sensor_id_to_intrinsics) h in
          match dict_getitem sensor_id_to_intrinsics
                  (CalibratedCamera.sensor_id calibrated_camera) with
          | Raise e => (Raise e, h)
          | Ok sensor =>
              let frame :=
                make_frame transform_matrix path (h !!! sensor) (h !!! common) in
              frames_loop calibrated_cameras sensor_id_to_intrinsics project_dir
                rest (frames ++ [frame]) (Some common) h
          end
      end
  end.

Definition make_transforms (camera_datas : list CameraData.t)
    (calibrated_cameras : CalibratedCameras.t)
    (sensor_id_to_intrinsics : sensor_table) (project_dir : string) (h : heap)
  : result SceneDocument * heap :=
  match frames_loop calibrated_cameras sensor_id_to_intrinsics project_dir
          camera_datas [] None h with
  | (Raise e, h) => (Raise e, h)
  | (Ok (frames, None), h) => (Raise (UnboundLocalError "common_intrinsics"), h)
  | (Ok (frames, Some common), h) => (Ok (make_document frames (h !!! common)), h)
  end.

End Assembler.

(** ** Concrete data used in the examples below *)

Module Examples.

Definition half (n : Z) : Qc := Q2Qc (n # 2).

Definition internals_a : Internals.t :=
  Internals.mk (PyFloat (half 2001))
    [PyFloat (half 640); PyFloat (half 480)]
    [PyFloat (half 1); PyFloat (half 0); PyFloat (half 0)]
    [PyFloat (half 0); PyFloat (half 0)].

Definition sensor_a : Sensor.t := Sensor.mk "s1" internals_a.
Definition sensor_b : Sensor.t := Sensor.mk "s2" internals_a.

(** Two sensors that differ in the image width only. *)
Definition rec_a : dict :=
  match extract_intrinsics sensor_a [PyInt 100; PyInt 50] with
  | Ok r => r
  | Raise _ => ∅
  end.
Definition rec_b : dict :=
  match extract_intrinsics sensor_b [PyInt 200; PyInt 50] with
  | Ok r => r
  | Raise _ => ∅
  end.

Definition heap_ab : heap := <[0%nat := rec_a]> (<[1%nat := rec_b]> ∅).
Definition table_ab : sensor_table := [("s1", 0%nat); ("s2", 1%nat)].

Definition cam (id : Z) : CameraData.t := CameraData.mk id "images/a.jpg".
Definition calibrated (id : Z) (sensor : string) : CalibratedCamera.t :=
  CalibratedCamera.mk id sensor [] [].

Definition identity4 : list (list Qc) :=
  [[half 2; half 0; half 0; half 0]; [half 0; half 2; half 0; half 0];
   [half 0; half 0; half 2; half 0]; [half 0; half 0; half 0; half 2]].

#[local] Instance ext : External := {|
  get_transform_matrix := λ _ _, identity4;
  urlparse_path := λ u, u;
  is_absolute := λ p, String.prefix "/" p;
  absolute := λ p, p;
  joinpath := λ a b, a +:+ "/" +:+ b
|}.

End Examples.


(** ** Specification-level notions *)

(** The typing of an intrinsics entry: [w] and [h] are ints, every other
    parameter is a float. *)
Definition typed_entry (k : string) (v : pynum) : bool :=
  match v with
  | PyInt _ => bool_decide (k = "w" ∨ k = "h")
  | PyFloat _ => bool_decide (¬ (k = "w" ∨ k = "h"))
  end.

(** An IntrinsicsRecord: exactly the fixed key set, with typed entries. *)
Definition IntrinsicsRecord (r : dict) : Prop :=
  dom r = list_to_set intrinsics_keys ∧
  map_Forall (λ k v, typed_entry k v = true) r.

(** The dicts a list of references denotes in a heap. *)
Definition records (h : heap) (ls : list loc) : list dict := (λ l, h !!! l) <$> ls.

(** [z] is [x] truncated toward zero. *)
Definition is_truncation (x : Qc) (z : Z) : Prop :=
  ((0 ≤ x)%Qc → (Z2Qc z ≤ x)%Qc ∧ (x < Z2Qc (z + 1))%Qc) ∧
  ((x ≤ 0)%Qc → (Z2Qc (z - 1) < x)%Qc ∧ (x ≤ Z2Qc z)%Qc).

(** The inner loop body and the inner loop, seen on the accumulator dict
    alone. *)
Definition prune_step (c : dict) (item : string * pynum) : dict :=
  match c !! item.1 with
  | Some v => if py_ne v item.2 then delete item.1 c else c
  | None => c
  end.

Definition prune (c : dict) (items : list (string * pynum)) : dict :=
  foldl prune_step c items.

(** Reading a scene document: its frame list, its shared (top-level)
    intrinsics keys, and the intrinsics keys of one frame. *)
Definition document_frames (doc : SceneDocument) : list frame :=
  match doc !! "frames" with
  | Some (DFrames frames) => frames
  | _ => []
  end.

Definition is_DNum (v : doc_value) : bool :=
  match v with DNum _ => true | _ => false end.

Definition is_FNum (v : frame_value) : bool :=
  match v with FNum _ => true | _ => false end.

Definition shared_keys (doc : SceneDocument) : gset string :=
  dom (filter (λ kv, is_DNum kv.2 = true) doc).

Definition frame_intrinsics_keys (f : frame) : gset string :=
  dom (filter (λ kv, is_FNum kv.2 = true) f).



(** ** Facts about Python numbers *)

Lemma Z2Qc_inj (a b : Z) : Z2Qc a = Z2Qc b → a = b.
Proof.
  unfold Z2Qc. intros E.
  apply (f_equal this) in E. simpl in E.
  assert (Q : (inject_Z a == inject_Z b)%Q).
  { rewrite <- (Qred_correct (inject_Z a)), <- (Qred_correct (inject_Z b)).
    rewrite E. reflexivity. }
  unfold Qeq in Q. simpl in Q. lia.
Qed.

Lemma Z2Qc_this (k : Z) : this (Z2Qc k) = inject_Z k.
Proof. unfold Z2Qc. simpl. apply inject_Z_Qred. Qed.


Lemma Z2Qc_le (a b : Z) : (Z2Qc a ≤ Z2Qc b)%Qc ↔ a ≤ b.
Proof. unfold Qcle. rewrite !Z2Qc_this. unfold Qle. simpl. lia. Qed.

Lemma Z2Qc_lt (a b : Z) : (Z2Qc a < Z2Qc b)%Qc ↔ a < b.
Proof. unfold Qclt. rewrite !Z2Qc_this. unfold Qlt. simpl. lia. Qed.

Lemma Qc_eq_bool_iff (x y : Qc) : Qc_eq_bool x y = true ↔ x = y.
Proof.
  split; [apply Qc_eq_bool_correct|].
  intros ->. unfold Qc_eq_bool. by destruct (Qcanon.Qc_eq_dec y y).
Qed.

Lemma py_ne_false (a b : pynum) : py_ne a b = false ↔ to_Qc a = to_Qc b.
Proof.
  unfold py_ne. rewrite negb_false_iff. apply Qc_eq_bool_iff.
Qed.

Lemma py_ne_refl (v : pynum) : py_ne v v = false.
Proof. by apply py_ne_false. Qed.

(** On entries of the same key of two typed records, [!=] is false only
    for identical values. *)
Lemma py_ne_typed (k : string) (a b : pynum) :
  typed_entry k a = true → typed_entry k b = true →
  py_ne a b = false → a = b.
Proof.
  intros Ha Hb Hne. apply py_ne_false in Hne.
  destruct a as [n|x], b as [m|y]; simpl in *.
  - f_equal. by apply Z2Qc_inj.
  - apply bool_decide_eq_true in Ha, Hb. tauto.
  - apply bool_decide_eq_true in Ha, Hb. tauto.
  - by f_equal.
Qed.

(** ** The reducer: what one pass and the whole scan leave in the heap *)

Section Reducer.
Implicit Types (h : heap) (c r : dict) (l common : loc) (k : string) (v : pynum).

Lemma drop_if_differs_alter common h item :
  drop_if_differs common h item = alter (λ c, prune_step c item) common h.
Proof.
  unfold drop_if_differs.
  destruct (h !! common) as [c|] eqn:Hc.
  - rewrite (lookup_total_correct _ _ _ Hc).
    destruct (c !! item.1) as [v|] eqn:Hk; [destruct (py_ne v item.2) eqn:Hne|].
    + apply alter_ext. intros x Hx. simplify_eq. unfold prune_step.
      by rewrite Hk, Hne.
    + symmetry. apply alter_id. intros x Hx. simplify_eq. unfold prune_step.
      by rewrite Hk, Hne.
    + apply alter_ext. intros x Hx. simplify_eq. unfold prune_step.
      rewrite Hk. by apply delete_id.
  - rewrite lookup_total_alt, Hc. simpl. rewrite lookup_empty.
    by rewrite !alter_id'.
Qed.

Lemma alter_twice (f g : dict → dict) h l :
  alter f l (alter g l h) = alter (λ c, f (g c)) l h.
Proof.
  apply map_eq. intros l'. destruct (decide (l = l')) as [<-|Hne].
  - rewrite !lookup_alter_eq. by destruct (h !! l).
  - by rewrite !lookup_alter_ne.
Qed.

Lemma foldl_drop_if_differs common h items :
  foldl (drop_if_differs common) h items = alter (λ c, prune c items) common h.
Proof.
  revert h. induction items as [|item items IH]; intros h; simpl.
  - symmetry. by apply alter_id.
  - by rewrite IH, drop_if_differs_alter, alter_twice.
Qed.

(** A key survives the pass exactly when no item of that key differs from
    the accumulator's value. *)
Lemma prune_lookup c items k v :
  prune c items !! k = Some v ↔
  c !! k = Some v ∧ ∀ v', (k, v') ∈ items → py_ne v v' = false.
Proof.
  revert c. induction items as [|[k0 v0] items IH]; intros c; simpl.
  - split; [intros ?; split; [done|]; intros v' Hin; by apply elem_of_nil in Hin|tauto].
  - unfold prune in IH. rewrite IH. unfold prune_step. simpl.
    setoid_rewrite elem_of_cons.
    destruct (c !! k0) as [w|] eqn:Hk0; [destruct (py_ne w v0) eqn:Hne|].
    + destruct (decide (k = k0)) as [->|Hkk].
      * rewrite lookup_delete_eq. split; [intros [? _]; done|].
        intros [Hc Hall]. simplify_eq. specialize (Hall v0 (or_introl eq_refl)).
        congruence.
      * rewrite lookup_delete_ne by done. split.
        -- intros [Hc Hall]. split; [done|]. intros v' [?|?]; [congruence|auto].
        -- intros [Hc Hall]. split; [done|]. intros v' ?. auto.
    + split.
      * intros [Hc Hall]. split; [done|]. intros v' [?|?]; [|auto].
        simplify_eq. done.
      * intros [Hc Hall]. split; [done|]. intros v' ?. auto.
    + split.
      * intros [Hc Hall]. split; [done|]. intros v' [?|?]; [|auto].
        simplify_eq.
      * intros [Hc Hall]. split; [done|]. intros v' ?. auto.
Qed.

(** The heap after one pass of the inner loop. *)
Lemma scan_record_alter common h l :
  scan_record common h l =
  alter (λ c, prune c (map_to_list (h !!! l))) common h.
Proof. apply foldl_drop_if_differs. Qed.

Lemma scan_record_other common h l l' :
  l' ≠ common → scan_record common h l !! l' = h !! l'.
Proof. intros Hne. rewrite scan_record_alter. by apply lookup_alter_ne. Qed.

Lemma scan_record_common common h l k v :
  (scan_record common h l !!! common) !! k = Some v ↔
  (h !!! common) !! k = Some v ∧
  ∀ v', (h !!! l) !! k = Some v' → py_ne v v' = false.
Proof.
  rewrite scan_record_alter.
  destruct (h !! common) as [c|] eqn:Hc.
  - rewrite lookup_total_alter_eq, (lookup_total_correct _ _ _ Hc).
    rewrite Hc. simpl. rewrite prune_lookup. by setoid_rewrite elem_of_map_to_list.
  - rewrite alter_id' by done. rewrite lookup_total_alt, Hc. simpl.
    rewrite lookup_empty. split; [done|]. by intros [? _].
Qed.

(** The pass over the accumulator itself deletes nothing, so reading its
    items when the loop starts is the same as iterating the live dict. *)
Lemma scan_self common h : scan_record common h common = h.
Proof.
  rewrite scan_record_alter. apply alter_id. intros c Hc.
  rewrite (lookup_total_correct _ _ _ Hc).
  apply map_eq. intros k. apply option_eq. intros v.
  rewrite prune_lookup. setoid_rewrite elem_of_map_to_list.
  split; [by intros [? _]|]. intros Hk. split; [done|].
  intros v' Hv'. simplify_eq. apply py_ne_refl.
Qed.

(** The whole scan: only the first dict changes, and a key of it survives
    exactly when every dict of the list that holds the key holds a value
    equal to it under [!=]. *)
Lemma scan_all common ls h :
  let h' := foldl (scan_record common) h ls in
  (∀ l', l' ≠ common → h' !! l' = h !! l') ∧
  (∀ k v, (h' !!! common) !! k = Some v ↔
     (h !!! common) !! k = Some v ∧
     ∀ l v', l ∈ ls → (h !!! l) !! k = Some v' → py_ne v v' = false).
Proof.
  revert h. induction ls as [|l ls IH]; intros h; simpl.
  - split; [done|]. intros k v. split; [|tauto].
    intros ?. split; [done|]. intros l v' Hin. by apply elem_of_nil in Hin.
  - destruct (IH (scan_record common h l)) as [IH1 IH2]. split.
    + intros l' Hl'. rewrite IH1 by done. by apply scan_record_other.
    + intros k v. rewrite IH2, scan_record_common.
      assert (Hsame : ∀ l2, l2 ≠ common →
        scan_record common h l !!! l2 = h !!! l2).
      { intros l2 Hl2. rewrite !lookup_total_alt.
        by rewrite scan_record_other. }
      split.
      * intros [[Hc Hl] Hrest]. split; [done|].
        intros l2 v' [->|Hin]%elem_of_cons Hv'; [by apply Hl|].
        destruct (decide (l2 = common)) as [->|Hne].
        -- rewrite Hc in Hv'. simplify_eq. apply py_ne_refl.
        -- apply (Hrest l2 v' Hin). by rewrite Hsame.
      * intros [Hc Hall]. split; [split; [done|]|].
        -- intros v' Hv'. apply (Hall l v'); [apply elem_of_cons; by left|done].
        -- intros l2 v' Hin Hv'.
           destruct (decide (l2 = common)) as [->|Hne].
           ++ apply scan_record_common in Hv' as [Hv' _].
              rewrite Hc in Hv'. simplify_eq. apply py_ne_refl.
           ++ rewrite Hsame in Hv' by done.
              apply (Hall l2 v'); [apply elem_of_cons; by right|done].
Qed.

Lemma common_value_nil h : common_value [] h = ∅.
Proof. unfold common_value. simpl. apply lookup_total_insert_eq. Qed.

Lemma common_value_lookup l ls h k v :
  common_value (l :: ls) h !! k = Some v ↔
  (h !!! l) !! k = Some v ∧
  ∀ r v', r ∈ records h (l :: ls) → r !! k = Some v' → py_ne v v' = false.
Proof.
  unfold common_value, extract_common_intrinsics.
  destruct (scan_all l (l :: ls) h) as [_ ->].
  unfold records. setoid_rewrite list_elem_of_fmap.
  split; intros [Hl Hall]; (split; [done|]).
  - intros r v' (l2 & -> & Hin). by apply Hall.
  - intros l2 v' Hin. apply Hall. eauto.
Qed.

(** Locations other than the first of the list keep their dict. *)
Lemma extract_common_intrinsics_frame l ls h l' :
  l' ≠ l → (extract_common_intrinsics (l :: ls) h).2 !! l' = h !! l'.
Proof. intros Hne. simpl. by apply (scan_all l (l :: ls) h). Qed.

(** The first dict only ever loses keys. *)
Lemma extract_common_intrinsics_shrinks l ls h k v :
  ((extract_common_intrinsics (l :: ls) h).2 !!! l) !! k = Some v →
  (h !!! l) !! k = Some v.
Proof. intros Hk. by apply (common_value_lookup l ls h k v). Qed.

(** On typed records with the fixed key set the result is the set of
    entries that every record holds. *)
Lemma common_value_typed ls h k v :
  ls ≠ [] → Forall IntrinsicsRecord (records h ls) →
  common_value ls h !! k = Some v ↔ ∀ r, r ∈ records h ls → r !! k = Some v.
Proof.
  destruct ls as [|l ls]; [done|]. intros _ Hrec.
  rewrite common_value_lookup.
  assert (Hfirst : h !!! l ∈ records h (l :: ls)).
  { unfold records. rewrite fmap_cons. apply elem_of_cons. by left. }
  rewrite Forall_forall in Hrec.
  split.
  - intros [Hl Hall] r Hr.
    destruct (Hrec _ Hfirst) as [Hdom0 Hty0], (Hrec _ Hr) as [Hdom Hty].
    assert (is_Some (r !! k)) as [v' Hv'].
    { apply elem_of_dom. rewrite Hdom, <- Hdom0. apply elem_of_dom. eauto. }
    rewrite Hv'. f_equal. symmetry.
    apply (py_ne_typed k); [by apply (Hty0 k v)|by apply (Hty k v')|by eauto].
  - intros Hall. split; [by apply Hall|].
    intros r v' Hr Hv'. rewrite (Hall r Hr) in Hv'. simplify_eq.
    apply py_ne_refl.
Qed.

End Reducer.

(** ** extract_common_intrinsics: the returned value *)

(** C7: the reducer returns the empty mapping on the empty sequence, and on
    a non-empty sequence of intrinsics records (fixed key set) its result
    holds exactly the entries that every input record holds with the
    identical value. *)
Theorem extract_common_intrinsics_correct (h : heap) :
  common_value [] h = ∅ ∧
  ∀ ls, ls ≠ [] → Forall IntrinsicsRecord (records h ls) →
    ∀ k v, common_value ls h !! k = Some v ↔
           ∀ r, r ∈ records h ls → r !! k = Some v.
Proof.
  split; [apply common_value_nil|].
  intros ls Hne Hrec k v. by apply common_value_typed.
Qed.

(** C8: as a function on values the reducer does not depend on the order of
    the input records; on a list holding one record twice (the same dict
    twice, or two equal dicts) it returns that record; on the empty list it
    returns the empty mapping. *)
Theorem extract_common_intrinsics_algebra (h : heap) :
  (∀ ls ls', Forall IntrinsicsRecord (records h ls) → ls ≡ₚ ls' →
     common_value ls h = common_value ls' h) ∧
  (∀ l1 l2 r, h !! l1 = Some r → h !! l2 = Some r →
     common_value [l1; l2] h = r) ∧
  common_value [] h = ∅.
Proof.
  split; [|split; [|apply common_value_nil]].
  - intros ls ls' Hrec Hperm.
    destruct ls as [|l ls].
    { apply Permutation_nil in Hperm. by subst. }
    assert (Hne' : ls' ≠ []).
    { intros ->. symmetry in Hperm. by apply Permutation_nil in Hperm. }
    assert (Hrecs : records h (l :: ls) ≡ₚ records h ls').
    { unfold records. by apply fmap_Permutation. }
    apply map_eq. intros k. apply option_eq. intros v.
    rewrite !common_value_typed; [|done|by rewrite <- Hrecs|done|done].
    by setoid_rewrite Hrecs.
  - intros l1 l2 r H1 H2.
    apply map_eq. intros k. apply option_eq. intros v.
    rewrite common_value_lookup. unfold records. simpl.
    rewrite (lookup_total_correct _ _ _ H1), (lookup_total_correct _ _ _ H2).
    split; [by intros [? _]|]. intros Hk. split; [done|].
    intros r' v' Hin Hv'.
    assert (r' = r) as ->.
    { rewrite !elem_of_cons in Hin.
      destruct Hin as [?|[?|Hin]]; [done|done|by apply elem_of_nil in Hin]. }
    rewrite Hk in Hv'. simplify_eq. apply py_ne_refl.
Qed.

Lemma rec_a_IntrinsicsRecord : IntrinsicsRecord Examples.rec_a.
Proof.
  split; [by vm_compute|].
  eapply bool_decide_unpack. by vm_compute.
Qed.

Lemma rec_b_IntrinsicsRecord : IntrinsicsRecord Examples.rec_b.
Proof.
  split; [by vm_compute|].
  eapply bool_decide_unpack. by vm_compute.
Qed.

Lemma records_heap_ab :
  records Examples.heap_ab [0%nat; 1%nat] = [Examples.rec_a; Examples.rec_b].
Proof. by vm_compute. Qed.

Lemma extract_common_intrinsics_correct_witness :
  [0%nat; 1%nat] ≠ [] ∧
  Forall IntrinsicsRecord (records Examples.heap_ab [0%nat; 1%nat]) ∧
  (common_value [0%nat; 1%nat] Examples.heap_ab !! "w" = Some (PyInt 100) ↔
   ∀ r, r ∈ records Examples.heap_ab [0%nat; 1%nat] → r !! "w" = Some (PyInt 100)).
Proof.
  assert (Hne : [0%nat; 1%nat] ≠ @nil nat) by done.
  assert (Hrec : Forall IntrinsicsRecord (records Examples.heap_ab [0%nat; 1%nat])).
  { rewrite records_heap_ab.
    repeat constructor; [apply rec_a_IntrinsicsRecord|apply rec_b_IntrinsicsRecord]. }
  split; [exact Hne|]. split; [exact Hrec|].
  exact (proj2 (extract_common_intrinsics_correct Examples.heap_ab)
           [0%nat; 1%nat] Hne Hrec "w" (PyInt 100)).
Defined.

Lemma extract_common_intrinsics_algebra_witness :
  Forall IntrinsicsRecord (records Examples.heap_ab [0%nat; 1%nat]) ∧
  [0%nat; 1%nat] ≡ₚ [1%nat; 0%nat] ∧
  common_value [0%nat; 1%nat] Examples.heap_ab
  = common_value [1%nat; 0%nat] Examples.heap_ab ∧
  common_value [0%nat; 0%nat] Examples.heap_ab = Examples.rec_a.
Proof.
  assert (Hrec : Forall IntrinsicsRecord (records Examples.heap_ab [0%nat; 1%nat])).
  { rewrite records_heap_ab.
    repeat constructor; [apply rec_a_IntrinsicsRecord|apply rec_b_IntrinsicsRecord]. }
  assert (Hperm : [0%nat; 1%nat] ≡ₚ [1%nat; 0%nat]) by apply perm_swap.
  assert (H0 : Examples.heap_ab !! 0%nat = Some Examples.rec_a) by done.
  destruct (extract_common_intrinsics_algebra Examples.heap_ab) as (Hp & Htwice & _).
  split; [exact Hrec|]. split; [exact Hperm|]. split.
  - exact (Hp _ _ Hrec Hperm).
  - exact (Htwice _ _ _ H0 H0).
Defined.

(** ** extract_common_intrinsics: effect on the caller's records *)

(** C1 (violated by the code): with two sensors that differ in the image
    width, the call removes the entry [w] from the caller's first record;
    the accumulator is the first record itself, not a copy of it. *)
Theorem extract_common_intrinsics_mutates_first_record :
  let h' := (extract_common_intrinsics [0%nat; 1%nat] Examples.heap_ab).2 in
  (Examples.heap_ab !!! 0%nat) !! "w" = Some (PyInt 100) ∧
  (h' !!! 0%nat) !! "w" = None ∧
  (extract_common_intrinsics [0%nat; 1%nat] Examples.heap_ab).1 = 0%nat.
Proof. by vm_compute. Qed.

(** ** filter_cameras *)

Section Selector.
Implicit Types (camera_list : CameraList.t) (max_num_images : Z).





(** A count below the sentinel is rejected by [np.linspace]. *)
Lemma filter_cameras_negative camera_list max_num_images :
  max_num_images < -1 →
  filter_cameras camera_list max_num_images = Raise ValueError.
Proof.
  intros Hneg. unfold filter_cameras. rewrite Z.gtb_ltb.
  destruct (max_num_images =? -1) eqn:E1; [lia|].
  destruct (Z.ltb_spec max_num_images
              (Z.of_nat (length (CameraList.cameras camera_list)))); [|lia].
  simpl. unfold idx, np_linspace.
  by destruct (Z.ltb_spec max_num_images 0); [|lia].
Qed.
(** *** Rounding *)





(** *** The sampling grid *)








End Selector.

(** C4 (as stated, refuted): with [max_count = 0] a non-empty camera list is
    not returned unchanged, every camera is dropped; with [max_count = -2]
    nothing is returned. *)
Lemma filter_cameras_zero_counterexample :
  let camera_list := CameraList.mk [Examples.cam 1; Examples.cam 2] in
  filter_cameras camera_list 0 = Ok [] ∧
  filter_cameras camera_list 0 ≠ Ok (CameraList.cameras camera_list) ∧
  filter_cameras camera_list (-2) = Raise ValueError.
Proof.
  split; [by vm_compute|]. split; [|by vm_compute].
  vm_compute. discriminate.
Qed.

(** C4 (amended): the selector returns its input unchanged when
    [max_count] is the sentinel [-1] or is at least the length of the list
    (zero on the empty list included); with [max_count = 0] on a non-empty
    list it returns the empty list. *)
Theorem filter_cameras_no_filtering (camera_list : CameraList.t) (max_num_images : Z) :
  (max_num_images = -1 ∨
   Z.of_nat (length (CameraList.cameras camera_list)) ≤ max_num_images →
   filter_cameras camera_list max_num_images = Ok (CameraList.cameras camera_list)) ∧
  (max_num_images = 0 → CameraList.cameras camera_list ≠ [] →
   filter_cameras camera_list max_num_images = Ok []).
Proof.
  split.
  - intros Hcase. unfold filter_cameras. rewrite Z.gtb_ltb.
    destruct (max_num_images =? -1) eqn:E1; [done|].
    destruct (max_num_images <? Z.of_nat _) eqn:E2; [lia|done].
  - intros -> Hne. unfold filter_cameras.
    destruct (CameraList.cameras camera_list) as [|c cs] eqn:Hc; [done|].
    done.
Qed.

Lemma filter_cameras_no_filtering_witness :
  let camera_list := CameraList.mk [Examples.cam 1; Examples.cam 2] in
  (filter_cameras camera_list (-1) = Ok (CameraList.cameras camera_list) ∧
   filter_cameras camera_list 2 = Ok (CameraList.cameras camera_list)) ∧
  filter_cameras camera_list 0 = Ok [].
Proof.
  intros camera_list. split; [split|].
  - apply (proj1 (filter_cameras_no_filtering camera_list (-1))). by left.
  - apply (proj1 (filter_cameras_no_filtering camera_list 2)). right. simpl. lia.
  - apply (proj2 (filter_cameras_no_filtering camera_list 0)); done.
Defined.

(** Asked for 2 of 3 cameras, the selector raises: the rounded positions
    are floats, which a list does not accept as indices. *)
Lemma filter_cameras_subsample_raises :
  filter_cameras
    (CameraList.mk [Examples.cam 1; Examples.cam 2; Examples.cam 3]) 2
  = Raise TypeError.
Proof. by vm_compute. Qed.




(** ** extract_intrinsics *)

Section Extractor.

Lemma Z2Qc_le_l (z : Z) (x : Qc) :
  (Z2Qc z ≤ x)%Qc ↔ z * Zpos (Qden x) ≤ Qnum x.
Proof.
  unfold Qcle, Z2Qc. simpl. rewrite Qred_correct.
  unfold Qle. simpl. lia.
Qed.

Lemma Z2Qc_le_r (z : Z) (x : Qc) :
  (x ≤ Z2Qc z)%Qc ↔ Qnum x ≤ z * Zpos (Qden x).
Proof.
  unfold Qcle, Z2Qc. simpl. rewrite Qred_correct.
  unfold Qle. simpl. lia.
Qed.

Lemma Z2Qc_lt_l (z : Z) (x : Qc) :
  (Z2Qc z < x)%Qc ↔ z * Zpos (Qden x) < Qnum x.
Proof.
  unfold Qclt, Z2Qc. simpl. rewrite Qred_correct.
  unfold Qlt. simpl. lia.
Qed.

Lemma Z2Qc_lt_r (z : Z) (x : Qc) :
  (x < Z2Qc z)%Qc ↔ Qnum x < z * Zpos (Qden x).
Proof.
  unfold Qclt, Z2Qc. simpl. rewrite Qred_correct.
  unfold Qlt. simpl. lia.
Qed.

(** [trunc] rounds toward zero. *)
Lemma trunc_is_truncation (x : Qc) : is_truncation x (trunc x).
Proof.
  unfold is_truncation, trunc.
  change 0%Qc with (Z2Qc 0).
  rewrite !Z2Qc_le_l, !Z2Qc_le_r, !Z2Qc_lt_l, !Z2Qc_lt_r.
  set (n := Qnum x). set (d := Z.pos (Qden x)).
  assert (Hd : 0 < d) by (unfold d; lia).
  split; intros Hsign.
  - rewrite Z.quot_div_nonneg by lia.
    pose proof (Z.mul_div_le n d Hd).
    pose proof (Z.mul_succ_div_gt n d Hd). lia.
  - assert (Hq : n `quot` d = - ((- n) `div` d)).
    { rewrite <- (Z.quot_div_nonneg (- n) d) by lia.
      rewrite Z.quot_opp_l by lia. lia. }
    rewrite Hq.
    pose proof (Z.mul_div_le (- n) d Hd).
    pose proof (Z.mul_succ_div_gt (- n) d Hd). lia.
Qed.

Lemma py_int_is_truncation (v : pynum) : is_truncation (to_Qc v) (py_int v).
Proof.
  destruct v as [n|x]; [|apply trunc_is_truncation].
  unfold is_truncation. simpl.
  rewrite !Z2Qc_le, !Z2Qc_lt. lia.
Qed.

Lemma nd_getitem_Some (a : list pynum) (i : nat) :
  (i < length a)%nat → ∃ v, a !! i = Some v ∧ nd_getitem a i = Ok v.
Proof.
  intros Hi. destruct (lookup_lt_is_Some_2 a i Hi) as [v Hv].
  exists v. unfold nd_getitem. by rewrite Hv.
Qed.

End Extractor.

(** C10: on a sensor and an image size of the expected shapes the extractor
    returns a record whose [fl_x] and [fl_y] are both the sensor's focal
    length, whose keys are exactly the eleven fixed ones, and whose [w] and
    [h] are the integer truncations of [image_size_px[0]] and
    [image_size_px[1]]. *)
Theorem extract_intrinsics_record (sensor : Sensor.t) (image_size_px : list pynum) :
  let i := Sensor.internals sensor in
  (2 ≤ length (Internals.principal_point_px i))%nat →
  (2 ≤ length image_size_px)%nat →
  (3 ≤ length (Internals.radial_distortion i))%nat →
  (2 ≤ length (Internals.tangential_distortion i))%nat →
  ∃ r sw sh,
    extract_intrinsics sensor image_size_px = Ok r ∧
    r !! "fl_x" = Some (Internals.focal_length_px i) ∧
    r !! "fl_y" = r !! "fl_x" ∧
    dom r = list_to_set intrinsics_keys ∧
    size r = 11%nat ∧
    image_size_px !! 0%nat = Some sw ∧
    image_size_px !! 1%nat = Some sh ∧
    r !! "w" = Some (PyInt (py_int sw)) ∧
    r !! "h" = Some (PyInt (py_int sh)) ∧
    is_truncation (to_Qc sw) (py_int sw) ∧
    is_truncation (to_Qc sh) (py_int sh).
Proof.
  intros i Hpp Hsz Hrd Htd. unfold extract_intrinsics. fold i.
  destruct (nd_getitem_Some (Internals.principal_point_px i) 0) as (cx & _ & ->); [lia|].
  destruct (nd_getitem_Some (Internals.principal_point_px i) 1) as (cy & _ & ->); [lia|].
  destruct (nd_getitem_Some image_size_px 0) as (sw & Hsw & ->); [lia|].
  destruct (nd_getitem_Some image_size_px 1) as (sh & Hsh & ->); [lia|].
  destruct (nd_getitem_Some (Internals.radial_distortion i) 0) as (k1 & _ & ->); [lia|].
  destruct (nd_getitem_Some (Internals.radial_distortion i) 1) as (k2 & _ & ->); [lia|].
  destruct (nd_getitem_Some (Internals.radial_distortion i) 2) as (k3 & _ & ->); [lia|].
  destruct (nd_getitem_Some (Internals.tangential_distortion i) 0) as (p1 & _ & ->); [lia|].
  destruct (nd_getitem_Some (Internals.tangential_distortion i) 1) as (p2 & _ & ->); [lia|].
  simpl. eexists _, sw, sh. split; [reflexivity|].
  split; [done|]. split; [done|].
  split; [by rewrite !dom_insert_L, dom_empty_L; vm_compute|].
  split.
  { rewrite <- size_dom, !dom_insert_L, dom_empty_L. by vm_compute. }
  do 4 (split; [done|]).
  split; apply py_int_is_truncation.
Qed.

Lemma extract_intrinsics_record_witness :
  ∃ r, extract_intrinsics Examples.sensor_a [PyInt 100; PyFloat (Examples.half 101)] = Ok r ∧
       r !! "fl_y" = r !! "fl_x" ∧
       r !! "w" = Some (PyInt 100) ∧ r !! "h" = Some (PyInt 50).
Proof.
  destruct (extract_intrinsics_record Examples.sensor_a
              [PyInt 100; PyFloat (Examples.half 101)])
    as (r & sw & sh & Hr & _ & Hfl & _ & _ & Hsw & Hsh & Hw & Hh & _);
    [simpl; lia..|].
  exists r. simpl in Hsw, Hsh. simplify_eq.
  split; [done|]. split; [done|]. split; [done|]. done.
Defined.

(** ** make_transforms *)

Section AssemblerFacts.
Context `{External}.
Implicit Types (calibrated_cameras : CalibratedCameras.t)
  (table : sensor_table) (project_dir : string)
  (camera_datas : list CameraData.t) (frames : list frame)
  (common : option loc) (h : heap).

Lemma elem_of_shared_keys (doc : SceneDocument) k :
  k ∈ shared_keys doc ↔ ∃ v, doc !! k = Some (DNum v).
Proof.
  unfold shared_keys. rewrite elem_of_dom. unfold is_Some.
  setoid_rewrite map_lookup_filter_Some. simpl. split.
  - intros ([| |v] & Hk & Hn); try done. by exists v.
  - intros (v & Hk). by exists (DNum v).
Qed.

Lemma elem_of_frame_intrinsics_keys (f : frame) k :
  k ∈ frame_intrinsics_keys f ↔ ∃ v, f !! k = Some (FNum v).
Proof.
  unfold frame_intrinsics_keys. rewrite elem_of_dom. unfold is_Some.
  setoid_rewrite map_lookup_filter_Some. simpl. split.
  - intros ([| |v] & Hk & Hn); try done. by exists v.
  - intros (v & Hk). by exists (FNum v).
Qed.

(** A numeric entry of a frame is an entry of the sensor's dict whose
    key is absent from the shared dict. *)
Lemma make_frame_FNum tm path (sensor_intrinsics common_intrinsics : dict) k v :
  make_frame tm path sensor_intrinsics common_intrinsics !! k = Some (FNum v) ↔
  sensor_intrinsics !! k = Some v ∧ common_intrinsics !! k = None.
Proof.
  unfold make_frame. rewrite lookup_union_Some_raw, lookup_fmap.
  rewrite fmap_Some, fmap_None.
  setoid_rewrite map_lookup_filter_Some. simpl. split.
  - intros [(v' & [Hk Hc] & Hv)|[_ Hbase]]; [by simplify_eq|].
    rewrite lookup_insert in Hbase. case_decide; [done|].
    rewrite lookup_insert in Hbase. case_decide; [done|].
    by rewrite lookup_empty in Hbase.
  - intros [Hk Hc]. left. eauto.
Qed.

(** A numeric top-level entry of the document is an entry of the shared
    dict. *)
Lemma make_document_DNum frames (common_intrinsics : dict) k v :
  make_document frames common_intrinsics !! k = Some (DNum v) ↔
  common_intrinsics !! k = Some v.
Proof.
  unfold make_document. rewrite lookup_union_Some_raw, lookup_fmap.
  rewrite fmap_Some, fmap_None. split.
  - intros [(v' & Hk & Hv)|[_ Hbase]]; [by simplify_eq|].
    rewrite lookup_insert in Hbase. case_decide; [done|].
    rewrite lookup_insert in Hbase. case_decide; [done|].
    by rewrite lookup_empty in Hbase.
  - intros Hk. left. eauto.
Qed.

Lemma document_frames_make_document frames (common_intrinsics : dict) f :
  f ∈ document_frames (make_document frames common_intrinsics) → f ∈ frames.
Proof.
  unfold document_frames, make_document.
  destruct (_ !! "frames") as [[| fs |]|] eqn:Hf;
    try (intros Hin; by apply elem_of_nil in Hin).
  apply lookup_union_Some_raw in Hf as [Hf|[_ Hf]].
  - rewrite lookup_fmap in Hf. by destruct (common_intrinsics !! "frames").
  - rewrite lookup_insert_eq in Hf. by simplify_eq.
Qed.

(** The accumulator of a non-empty table is its first dict. *)
Lemma dict_getitem_Ok_values table key l :
  dict_getitem table key = Ok l →
  ∃ l0 ls, dict_values table = l0 :: ls.
Proof.
  destruct table as [|[k0 l0] table]; [done|]. intros _. by eexists _, _.
Qed.

(** Loop invariant for disjointness: no numeric key of an emitted frame
    is a key of the accumulator dict. *)
Lemma frames_loop_disjoint calibrated_cameras table project_dir camera_datas :
  ∀ frames common h frames' common' h',
    frames_loop calibrated_cameras table project_dir camera_datas
      frames common h = (Ok (frames', common'), h') →
    (common = None → frames = []) →
    (∀ l, common = Some l →
       hd_error (dict_values table) = Some l ∧
       ∀ f k v, f ∈ frames → f !! k = Some (FNum v) → (h !!! l) !! k = None) →
    (common' = None → frames' = []) ∧
    (∀ l, common' = Some l →
       ∀ f k v, f ∈ frames' → f !! k = Some (FNum v) → (h' !!! l) !! k = None).
Proof.
  induction camera_datas as [|camera_data rest IH];
    intros frames common h frames' common' h' Hloop Hnone Hsome; simpl in Hloop.
  - simplify_eq. split; [done|]. intros l Hl. by apply Hsome.
  - destruct (next_calibrated _ _) as [calibrated_camera|]; [|done].
    destruct (extract_common_intrinsics (dict_values table) h)
      as [cm h1] eqn:Hext.
    destruct (dict_getitem table _) as [sensor|e] eqn:Hget; [|done].
    destruct (dict_getitem_Ok_values _ _ _ Hget) as (l0 & ls & Hvals).
    rewrite Hvals in Hext. simpl in Hext. injection Hext as <- <-.
    apply IH in Hloop; [done|done|].
    intros l [= <-]. split; [by rewrite Hvals|].
    intros f k v [Hf|Hf]%elem_of_app Hk.
    + destruct common as [l|].
      * destruct (Hsome l eq_refl) as [Hhd Hold].
        rewrite Hvals in Hhd. simpl in Hhd. simplify_eq.
        specialize (Hold f k v Hf Hk).
        destruct ((foldl (scan_record l) h (l :: ls) !!! l) !! k) as [v'|] eqn:Hk';
          [|done].
        apply (extract_common_intrinsics_shrinks l ls h) in Hk'. congruence.
      * rewrite Hnone in Hf by done. by apply elem_of_nil in Hf.
    + apply list_elem_of_singleton in Hf as ->.
      by apply make_frame_FNum in Hk as [_ Hk].
Qed.

(** *** Matching calibrated records *)

Lemma next_calibrated_None (cameras : list CalibratedCamera.t) (id : Z) :
  next_calibrated cameras id = None ↔
  Forall (λ camera, CalibratedCamera.id camera ≠ id) cameras.
Proof.
  unfold next_calibrated. induction cameras as [|camera cameras IH]; simpl.
  - split; [constructor|done].
  - rewrite Forall_cons. destruct (Z.eqb_spec (CalibratedCamera.id camera) id).
    + split; [done|]. by intros [? _].
    + rewrite IH. tauto.
Qed.

Lemma next_calibrated_first (before after : list CalibratedCamera.t)
    (camera : CalibratedCamera.t) (id : Z) :
  CalibratedCamera.id camera = id →
  Forall (λ other, CalibratedCamera.id other ≠ id) before →
  next_calibrated (before ++ camera :: after) id = Some camera.
Proof.
  intros Hid Hbefore. unfold next_calibrated.
  induction Hbefore as [|other before Hother _ IH]; simpl.
  - by rewrite (proj2 (Z.eqb_eq _ _) Hid).
  - by rewrite (proj2 (Z.eqb_neq _ _) Hother).
Qed.

Lemma next_calibrated_Some (cameras : list CalibratedCamera.t) (id : Z) camera :
  next_calibrated cameras id = Some camera →
  camera ∈ cameras ∧ CalibratedCamera.id camera = id.
Proof.
  intros [Hin Hid]%find_some. split; [by apply list_elem_of_In|lia].
Qed.

Lemma next_calibrated_is_Some (cameras : list CalibratedCamera.t) (id : Z) :
  (∃ camera, camera ∈ cameras ∧ CalibratedCamera.id camera = id) →
  is_Some (next_calibrated cameras id).
Proof.
  intros (camera & Hin & Hid).
  destruct (next_calibrated cameras id) eqn:Hnext; [by eexists|].
  apply next_calibrated_None in Hnext.
  rewrite Forall_forall in Hnext. by destruct (Hnext camera Hin).
Qed.

Lemma dict_getitem_is_Ok table key :
  key ∈ table.*1 → ∃ l, dict_getitem table key = Ok l.
Proof.
  unfold dict_getitem. induction table as [|[k l] table IH]; simpl.
  - intros Hin. by apply elem_of_nil in Hin.
  - intros [->|Hin]%elem_of_cons.
    + rewrite String.eqb_refl. by eexists.
    + destruct (String.eqb k key); [by eexists|]. by apply IH.
Qed.

Lemma not_found_message_inj (id1 id2 : Z) :
  not_found_message id1 = not_found_message id2 → id1 = id2.
Proof.
  unfold not_found_message. intros Hmsg. simpl in Hmsg.
  simplify_eq. by apply (inj pretty).
Qed.

(** A camera without a calibrated record anywhere in the list makes the
    loop raise. *)
Lemma frames_loop_unmatched calibrated_cameras table project_dir camera_datas
    camera_data :
  camera_data ∈ camera_datas →
  next_calibrated (CalibratedCameras.cameras calibrated_cameras)
    (CameraData.id camera_data) = None →
  ∀ frames common h, ∃ e h',
    frames_loop calibrated_cameras table project_dir camera_datas
      frames common h = (Raise e, h').
Proof.
  intros Hin Hnone. induction camera_datas as [|c rest IH]; intros frames common h.
  - by apply elem_of_nil in Hin.
  - simpl. apply elem_of_cons in Hin as [<-|Hin].
    + rewrite Hnone. by eexists _, _.
    + destruct (next_calibrated _ (CameraData.id c)); [|by eexists _, _].
      destruct (extract_common_intrinsics _ h) as [cm h1].
      destruct (dict_getitem table _); [|by eexists _, _].
      by apply IH.
Qed.

(** The loop reaches the first camera without a calibrated record and
    raises the error that names it. *)
Lemma frames_loop_first_unmatched calibrated_cameras table project_dir
    pre camera_data post :
  next_calibrated (CalibratedCameras.cameras calibrated_cameras)
    (CameraData.id camera_data) = None →
  Forall (λ c, ∃ camera, camera ∈ CalibratedCameras.cameras calibrated_cameras ∧
                 CalibratedCamera.id camera = CameraData.id c) pre →
  Forall (λ camera, CalibratedCamera.sensor_id camera ∈ table.*1)
    (CalibratedCameras.cameras calibrated_cameras) →
  ∀ frames common h, ∃ h',
    frames_loop calibrated_cameras table project_dir
      (pre ++ camera_data :: post) frames common h
    = (Raise (RuntimeError (not_found_message (CameraData.id camera_data))), h').
Proof.
  intros Hnone Hpre Htable.
  induction Hpre as [|c pre Hc _ IH]; intros frames common h; simpl.
  - rewrite Hnone. by eexists.
  - destruct (next_calibrated_is_Some _ _ Hc) as [camera Hcamera].
    rewrite Hcamera.
    destruct (extract_common_intrinsics _ h) as [cm h1].
    apply next_calibrated_Some in Hcamera as [Hin _].
    rewrite Forall_forall in Htable.
    destruct (dict_getitem_is_Ok table _ (Htable _ Hin)) as [l ->].
    apply IH.
Qed.

End AssemblerFacts.

(** C9: in every document that [make_transforms] returns, no intrinsics key
    is both a shared (top-level) key and an intrinsics key of a frame. *)
Theorem make_transforms_disjoint `{External}
    (camera_datas : list CameraData.t) (calibrated_cameras : CalibratedCameras.t)
    (sensor_id_to_intrinsics : sensor_table) (project_dir : string)
    (h h' : heap) (doc : SceneDocument) :
  make_transforms camera_datas calibrated_cameras sensor_id_to_intrinsics
    project_dir h = (Ok doc, h') →
  ∀ f, f ∈ document_frames doc → frame_intrinsics_keys f ## shared_keys doc.
Proof.
  unfold make_transforms.
  destruct (frames_loop _ _ _ _ _ _ _) as [[[frames [common|]]|e] h1] eqn:Hloop;
    [|done..].
  intros [= <- <-] f Hf.
  apply document_frames_make_document in Hf.
  apply frames_loop_disjoint in Hloop as [_ Hdisj]; [|done|done].
  apply elem_of_disjoint. intros k Hk1 Hk2.
  apply elem_of_frame_intrinsics_keys in Hk1 as [v Hv].
  apply elem_of_shared_keys in Hk2 as [w Hw].
  apply make_document_DNum in Hw.
  rewrite (Hdisj common eq_refl f k v Hf Hv) in Hw. done.
Qed.

Lemma make_transforms_disjoint_witness :
  ∃ doc h' f,
    @make_transforms Examples.ext [Examples.cam 7]
      (CalibratedCameras.mk [Examples.calibrated 7 "s2"])
      Examples.table_ab "/proj" Examples.heap_ab = (Ok doc, h') ∧
    document_frames doc = [f] ∧
    "w" ∈ frame_intrinsics_keys f ∧
    "h" ∈ shared_keys doc ∧
    frame_intrinsics_keys f ## shared_keys doc.
Proof.
  eexists _, _, _. split; [by vm_compute|].
  split; [by vm_compute|].
  split; [apply elem_of_frame_intrinsics_keys; eexists; by vm_compute|].
  split; [apply elem_of_shared_keys; eexists; by vm_compute|].
  eapply (@make_transforms_disjoint Examples.ext [Examples.cam 7]
            (CalibratedCameras.mk [Examples.calibrated 7 "s2"])
            Examples.table_ab "/proj" Examples.heap_ab).
  - by vm_compute.
  - apply list_elem_of_singleton. reflexivity.
Defined.

(** C6: a camera whose id matches no calibrated record makes
    [make_transforms] fail, so that no document is returned; when the loop
    reaches such a camera it raises at once, before anything else is done,
    the error that names the camera's id; over a whole run this is the first
    such camera, once the cameras before it have been assembled; and a camera
    that has matching records is assembled from the first of them in list
    order. *)
Theorem make_transforms_calibration_lookup `{External}
    (calibrated_cameras : CalibratedCameras.t)
    (sensor_id_to_intrinsics : sensor_table) (project_dir : string) :
  (∀ camera_datas camera_data h,
     camera_data ∈ camera_datas →
     Forall (λ camera, CalibratedCamera.id camera ≠ CameraData.id camera_data)
       (CalibratedCameras.cameras calibrated_cameras) →
     ∃ e, (make_transforms camera_datas calibrated_cameras
             sensor_id_to_intrinsics project_dir h).1 = Raise e) ∧
  (∀ camera_data rest frames common h,
     Forall (λ camera, CalibratedCamera.id camera ≠ CameraData.id camera_data)
       (CalibratedCameras.cameras calibrated_cameras) →
     frames_loop calibrated_cameras sensor_id_to_intrinsics project_dir
       (camera_data :: rest) frames common h
     = (Raise (RuntimeError (not_found_message (CameraData.id camera_data))), h)) ∧
  (∀ pre camera_data post h,
     Forall (λ camera, CalibratedCamera.id camera ≠ CameraData.id camera_data)
       (CalibratedCameras.cameras calibrated_cameras) →
     Forall (λ c, ∃ camera,
               camera ∈ CalibratedCameras.cameras calibrated_cameras ∧
               CalibratedCamera.id camera = CameraData.id c) pre →
     Forall (λ camera,
               CalibratedCamera.sensor_id camera ∈ sensor_id_to_intrinsics.*1)
       (CalibratedCameras.cameras calibrated_cameras) →
     (make_transforms (pre ++ camera_data :: post) calibrated_cameras
        sensor_id_to_intrinsics project_dir h).1
     = Raise (RuntimeError (not_found_message (CameraData.id camera_data)))) ∧
  (∀ id1 id2, not_found_message id1 = not_found_message id2 → id1 = id2) ∧
  (∀ before calibrated_camera after camera_data rest frames common h,
     CalibratedCameras.cameras calibrated_cameras
       = before ++ calibrated_camera :: after →
     CalibratedCamera.id calibrated_camera = CameraData.id camera_data →
     Forall (λ other, CalibratedCamera.id other ≠ CameraData.id camera_data)
       before →
     frames_loop calibrated_cameras sensor_id_to_intrinsics project_dir
       (camera_data :: rest) frames common h
     = let '(cm, h1) :=
         extract_common_intrinsics (dict_values sensor_id_to_intrinsics) h in
       match dict_getitem sensor_id_to_intrinsics
               (CalibratedCamera.sensor_id calibrated_camera) with
       | Raise e => (Raise e, h1)
       | Ok sensor =>
           frames_loop calibrated_cameras sensor_id_to_intrinsics project_dir rest
             (frames ++
                [make_frame
                   (astype_int (get_transform_matrix calibrated_camera false))
                   (get_camera_absolute_path camera_data project_dir)
                   (h1 !!! sensor) (h1 !!! cm)])
             (Some cm) h1
       end).
Proof.
  split; [|split; [|split; [|split]]].
  - intros camera_datas camera_data h Hin Hno.
    apply next_calibrated_None in Hno.
    destruct (frames_loop_unmatched calibrated_cameras sensor_id_to_intrinsics
                project_dir camera_datas camera_data Hin Hno [] None h)
      as (e & h' & Hloop).
    exists e. unfold make_transforms. by rewrite Hloop.
  - intros camera_data rest frames common h Hno.
    apply next_calibrated_None in Hno. simpl. by rewrite Hno.
  - intros pre camera_data post h Hno Hpre Htable.
    apply next_calibrated_None in Hno.
    destruct (frames_loop_first_unmatched calibrated_cameras
                sensor_id_to_intrinsics project_dir pre camera_data post
                Hno Hpre Htable [] None h) as (h' & Hloop).
    unfold make_transforms. by rewrite Hloop.
  - apply not_found_message_inj.
  - intros before calibrated_camera after camera_data rest frames common h
      Hsplit Hid Hbefore.
    simpl. rewrite Hsplit.
    by rewrite (next_calibrated_first before after calibrated_camera _ Hid Hbefore).
Qed.

Lemma make_transforms_calibration_lookup_witness :
  let calibrated_cameras :=
    CalibratedCameras.mk
      [Examples.calibrated 7 "s2"; Examples.calibrated 7 "s1"] in
  (@make_transforms Examples.ext [Examples.cam 7; Examples.cam 8; Examples.cam 9]
     calibrated_cameras Examples.table_ab "/proj" Examples.heap_ab).1
  = Raise (RuntimeError "Could not find calibrated camera with id 8") ∧
  (∃ e, (@make_transforms Examples.ext [Examples.cam 7; Examples.cam 9]
           calibrated_cameras Examples.table_ab "/proj" Examples.heap_ab).1
        = Raise e) ∧
  @frames_loop Examples.ext calibrated_cameras Examples.table_ab "/proj"
    [Examples.cam 8] [] None Examples.heap_ab
  = (Raise (RuntimeError "Could not find calibrated camera with id 8"),
     Examples.heap_ab) ∧
  ∃ doc f h',
    @make_transforms Examples.ext [Examples.cam 7]
      calibrated_cameras Examples.table_ab "/proj" Examples.heap_ab = (Ok doc, h') ∧
    document_frames doc = [f] ∧ f !! "w" = Some (FNum (PyInt 200)).
Proof.
  intros calibrated_cameras.
  destruct (@make_transforms_calibration_lookup Examples.ext calibrated_cameras
              Examples.table_ab "/proj") as (Hfail & Hstep & Hfirst & _ & Hused).
  assert (Hno : ∀ id, id ≠ 7 →
    Forall (λ camera, CalibratedCamera.id camera ≠ id)
      (CalibratedCameras.cameras calibrated_cameras)).
  { intros id Hid. apply Forall_cons. split; [simpl; congruence|].
    apply Forall_cons. split; [simpl; congruence|]. by apply Forall_nil. }
  split; [|split; [|split]].
  - apply (Hfirst [Examples.cam 7] (Examples.cam 8) [Examples.cam 9]
             Examples.heap_ab).
    + apply Hno. simpl. lia.
    + apply Forall_cons. split; [|by apply Forall_nil].
      exists (Examples.calibrated 7 "s2").
      split; [apply elem_of_cons; by left|done].
    + apply Forall_cons. split.
      { apply elem_of_cons. right. apply elem_of_cons. by left. }
      apply Forall_cons. split; [|by apply Forall_nil].
      apply elem_of_cons. by left.
  - apply (Hfail [Examples.cam 7; Examples.cam 9] (Examples.cam 9)
             Examples.heap_ab).
    + apply elem_of_cons. right. apply elem_of_cons. by left.
    + apply Hno. simpl. lia.
  - apply (Hstep (Examples.cam 8) [] [] None Examples.heap_ab).
    apply Hno. simpl. lia.
  - eexists _, _, _. unfold make_transforms.
    rewrite (Hused [] (Examples.calibrated 7 "s2") [Examples.calibrated 7 "s1"]
               (Examples.cam 7) [] [] None Examples.heap_ab eq_refl eq_refl
               (Forall_nil_2 _)).
    split; [by vm_compute|]. split; by vm_compute.
Defined.

(** C2 (violated by the code): on an empty camera sequence the loop body
    never runs, the local name [common_intrinsics] is still unbound when the
    document is built, and the call raises instead of returning a document. *)
Theorem make_transforms_empty_raises `{External}
    (calibrated_cameras : CalibratedCameras.t)
    (sensor_id_to_intrinsics : sensor_table) (project_dir : string) (h : heap) :
  make_transforms [] calibrated_cameras sensor_id_to_intrinsics project_dir h
  = (Raise (UnboundLocalError "common_intrinsics"), h).
Proof. reflexivity. Qed.

(** C3 (violated by the code): two sensors differ in [w]; the camera uses
    the first sensor of the table, whose record holds [w = 100].  The
    returned document has no top-level [w], and its single frame has no [w]
    either: the reducer has removed the entry from the sensor's own record
    before the frame was built. *)
Theorem make_transforms_loses_first_sensor_key :
  ∃ doc f h',
    @make_transforms Examples.ext [Examples.cam 7]
      (CalibratedCameras.mk [Examples.calibrated 7 "s1"])
      Examples.table_ab "/proj" Examples.heap_ab = (Ok doc, h') ∧
    dict_getitem Examples.table_ab "s1" = Ok 0%nat ∧
    (Examples.heap_ab !!! 0%nat) !! "w" = Some (PyInt 100) ∧
    ("w" ∉ shared_keys doc) ∧
    document_frames doc = [f] ∧
    f !! "w" = None.
Proof.
  eexists _, _, _. split; [by vm_compute|].
  split; [by vm_compute|]. split; [by vm_compute|].
  split; [|split; by vm_compute].
  rewrite elem_of_shared_keys. intros [v Hv]. by vm_compute in Hv.
Qed.
